(** * ftfy.badness: the weirdness heuristics of [src/ftfy/badness.py]

    A shallow embedding of the module and the properties of its two
    functions, [sequence_weirdness] and [text_cost].

    A Python [str] is a sequence of code points: [list N].  Python integers
    are unbounded: [Z].  The three module-level compiled patterns are kept as
    abstract syntax (alternation of fixed sequences of character atoms, the
    only regex constructs the module uses), and [Pattern.findall] follows the
    scan of the backtracking engine: leftmost start, first alternative that
    matches, resume after the match. *)

From Stdlib Require Import List NArith ZArith Ascii String Bool Lia.
Import ListNotations.

#[local] Abbreviation length := List.length.

(** ** Python strings *)

Definition char := N.
Bind Scope N_scope with char.
Definition str := list char.

Definition ord (a : ascii) : char := N_of_ascii a.

Fixpoint chars (s : string) : str :=
  match s with
  | EmptyString => []
  | String a s' => ord a :: chars s'
  end.

(** [len(x)] as a Python integer. *)
Definition len {A : Type} (l : list A) : Z := Z.of_nat (length l).

(** ** The regex fragment used by the module *)

Module Pattern.

(** What may stand inside [[...]]: a character or a range [lo-hi]. *)
Inductive item :=
| One (c : char)
| Range (lo hi : char).

(** One position of a pattern: a literal, a class [[...]] or [[^...]],
    or [\w]. *)
Inductive atom :=
| Lit (c : char)
| Class (negated : bool) (items : list item)
| Word.

(** A sequence of atoms, and the alternation [b1|b2|...] of such. *)
Definition branch := list atom.
Definition pattern := list branch.

(** [[abc]] and [[^abc]] written from the class text. *)
Definition set (s : string) : atom := Class false (map One (chars s)).
Definition nset (s : string) : atom := Class true (map One (chars s)).
Definition lit (a : ascii) : atom := Lit (ord a).
Definition members (cs : str) : list item := map One cs.

Section Engine.

(** [\w] on [str] patterns is the engine's Unicode notion of a word
    character; its table is not part of the module. *)
Variable isword : char -> bool.

Definition item_has (i : item) (c : char) : bool :=
  match i with
  | One d => N.eqb c d
  | Range lo hi => N.leb lo c && N.leb c hi
  end.

Definition accepts (a : atom) (c : char) : bool :=
  match a with
  | Lit d => N.eqb c d
  | Class negated items => xorb negated (existsb (fun i => item_has i c) items)
  | Word => isword c
  end.

(** Match the atoms of [p] against the front of [s]: the matched characters
    and what is left, or [None]. *)
Fixpoint match_seq (p : branch) (s : str) : option (str * str) :=
  match p with
  | [] => Some ([], s)
  | a :: p' =>
      match s with
      | [] => None
      | c :: s' =>
          if accepts a c then
            match match_seq p' s' with
            | Some (m, r) => Some (c :: m, r)
            | None => None
            end
          else None
      end
  end.

(** One alternative tried at the position holding [c], with [rest] after it.
    None of the module's patterns has an empty alternative; an empty one is
    never taken here. *)
Definition match_branch (b : branch) (c : char) (rest : str)
  : option (str * str) :=
  match b with
  | [] => None
  | a :: b' => if accepts a c then match_seq b' rest else None
  end.

(** The alternatives are tried in the order written; the first that matches
    wins. *)
Fixpoint match_here (re : pattern) (c : char) (rest : str)
  : option (str * str) :=
  match re with
  | [] => None
  | b :: re' =>
      match match_branch b c rest with
      | Some mr => Some mr
      | None => match_here re' c rest
      end
  end.

(** The scan of [findall]: at each position either a match is recorded and
    the scan resumes after it, or the scan moves one character on. *)
Fixpoint findall_loop (fuel : nat) (re : pattern) (s : str) : list str :=
  match fuel, s with
  | S fuel', c :: rest =>
      match match_here re c rest with
      | Some (m, r) => (c :: m) :: findall_loop fuel' re r
      | None => findall_loop fuel' re rest
      end
  | _, _ => []
  end.

Definition findall (re : pattern) (s : str) : list str :=
  findall_loop (length s) re s.

End Engine.

End Pattern.

Import Pattern.

(** ** The module's patterns *)

(** [_make_weirdness_regex]: the groups are appended in the order of the
    source and joined with [|].  The pattern runs over the class letters
    that [chars_to_classes] produces:
    L l A a C X m M N 1 2 3 S _ (space) o, and the letters i and P that the
    groups name. *)
Definition _make_weirdness_regex : pattern :=
  let groups := [] in
  (* diacritical marks, except on a non-cased letter or another mark *)
  let groups := groups ++ [[nset "CM"; lit "M"]] in
  (* non-Latin characters adjacent to Latin characters *)
  let groups := groups ++ [[set "Ll"; set "AaC"]] in
  let groups := groups ++ [[set "AaC"; set "Ll"]] in
  (* IPA letters next to capital letters *)
  let groups := groups ++ [[set "LA"; lit "i"]] in
  let groups := groups ++ [[lit "i"; set "LA"]] in
  (* non-combining diacritics *)
  let groups := groups ++ [[lit "2"]] in
  (* C1 control characters *)
  let groups := groups ++ [[lit "X"]] in
  (* private use and unassigned characters *)
  let groups := groups ++ [[lit "P"]] in
  let groups := groups ++ [[lit "_"]] in
  let exclusive_categories := chars "MmN13" in
  fold_left
    (fun groups cat1 =>
       let others_range :=
         filter (fun c => negb (N.eqb c cat1)) exclusive_categories in
       groups ++ [[Lit cat1; Class false (members others_range)]])
    exclusive_categories groups.

(** The characters of [COMMON_SYMBOL_RE], by their Unicode names. *)
Definition HORIZONTAL_ELLIPSIS : char := 0x2026.
Definition EM_DASH : char := 0x2014.
Definition EN_DASH : char := 0x2013.
Definition LEFT_SINGLE_QUOTATION_MARK : char := 0x2018.
Definition LEFT_DOUBLE_QUOTATION_MARK : char := 0x201C.
Definition RIGHT_SINGLE_QUOTATION_MARK : char := 0x2019.
Definition RIGHT_DOUBLE_QUOTATION_MARK : char := 0x201D.
Definition INVERTED_EXCLAMATION_MARK : char := 0xA1.
Definition INVERTED_QUESTION_MARK : char := 0xBF.
Definition DEGREE_SIGN : char := 0xB0.
Definition TRADE_MARK_SIGN : char := 0x2122.
Definition REGISTERED_SIGN : char := 0xAE.
Definition SINGLE_LEFT_POINTING_ANGLE_QUOTATION_MARK : char := 0x2039.
Definition SINGLE_RIGHT_POINTING_ANGLE_QUOTATION_MARK : char := 0x203A.
Definition LEFT_POINTING_DOUBLE_ANGLE_QUOTATION_MARK : char := 0xAB.
Definition RIGHT_POINTING_DOUBLE_ANGLE_QUOTATION_MARK : char := 0xBB.
Definition NO_BREAK_SPACE : char := 0xA0.
Definition ACUTE_ACCENT : char := 0xB4.
Definition MULTIPLICATION_SIGN : char := 0xD7.
Definition LATIN_SMALL_LETTER_SHARP_S : char := 0xDF.
Definition BYTE_ORDER_MARK : char := 0xFEFF.

Definition common_symbols : str :=
  [ HORIZONTAL_ELLIPSIS; EM_DASH; EN_DASH;
    LEFT_SINGLE_QUOTATION_MARK; LEFT_DOUBLE_QUOTATION_MARK;
    RIGHT_SINGLE_QUOTATION_MARK; RIGHT_DOUBLE_QUOTATION_MARK;
    INVERTED_EXCLAMATION_MARK; INVERTED_QUESTION_MARK; DEGREE_SIGN;
    TRADE_MARK_SIGN;
    REGISTERED_SIGN;
    SINGLE_LEFT_POINTING_ANGLE_QUOTATION_MARK;
    SINGLE_RIGHT_POINTING_ANGLE_QUOTATION_MARK;
    LEFT_POINTING_DOUBLE_ANGLE_QUOTATION_MARK;
    RIGHT_POINTING_DOUBLE_ANGLE_QUOTATION_MARK;
    NO_BREAK_SPACE;
    ACUTE_ACCENT; MULTIPLICATION_SIGN; LATIN_SMALL_LETTER_SHARP_S;
    BYTE_ORDER_MARK ].

(** [COMMON_SYMBOL_RE]: one character class. *)
Definition make_common_symbol_re : pattern :=
  [[Class false (members common_symbols)]].

(** The non-ASCII characters written inside [MOJIBAKE_SYMBOL_RE] are not
    legible in the source file (each of their bytes reads [?]); the shape of
    the pattern is: which alternatives there are, in which order, with which
    classes, literals and [\w].  The lost characters are the fields below.
    They are all non-ASCII, so none is a regex metacharacter and each class
    is a plain list of characters. *)
Record mojibake_chars := {
  latin_lead : str;       (* the class opening alternative 1 *)
  latin_trail : str;      (* alternative 1, after the range \x80-\x9f *)
  cautious_lead : str;    (* the class opening alternative 2 *)
  cautious_trail : str;   (* second class of alternative 2 *)
  mac_lead : str;         (* alternative 3 *)
  mac_trail : str;
  sqrt_sign : char;       (* the literal of alternative 4 *)
  sqrt_trail : str;       (* the class of alternative 4 *)
  astral_lead : str;      (* alternative 5 *)
  astral_trail : str;     (* alternative 5, before \x9f *)
  punct1252_1 : char;     (* the two-character literal, alternative 6 *)
  punct1252_2 : char;
  punct1251_1 : char;     (* the two-character literal of alternative 7 *)
  punct1251_2 : char;
  punct1251_trail : str   (* the class of alternative 7 *)
}.

(** [MOJIBAKE_SYMBOL_RE], alternative by alternative. *)
Definition make_mojibake_symbol_re (lost : mojibake_chars) : pattern :=
  [ (* Latin-1, Latin-2 and Windows-125x mojibake of low characters *)
    [ Class false (members (latin_lead lost));
      Class false (Range 0x80 0x9f :: members (latin_trail lost)) ];
    (* the cautious ones, only in the middle of a word *)
    [ Class false (members (cautious_lead lost));
      Class false (members (cautious_trail lost));
      Word ];
    (* MacRoman *)
    [ Class false (members (mac_lead lost));
      Class false (members (mac_trail lost)) ];
    [ Word;
      Lit (sqrt_sign lost);
      Class false (members (sqrt_trail lost));
      Word ];
    (* mojibake of U+10000 to U+1FFFF *)
    [ Class false (members (astral_lead lost));
      Class false (members (astral_trail lost) ++ [One 0x9f]) ];
    (* Windows-1252 or Windows-1250 mojibake of Windows punctuation *)
    [ Lit (punct1252_1 lost); Lit (punct1252_2 lost) ];
    (* Windows-1251 mojibake of Windows punctuation *)
    [ Lit (punct1251_1 lost); Lit (punct1251_2 lost);
      Class false (members (punct1251_trail lost)) ] ].

(** The module-level names the two functions read when they are called. *)
Record globals := {
  WEIRDNESS_RE : pattern;
  COMMON_SYMBOL_RE : pattern;
  MOJIBAKE_SYMBOL_RE : pattern
}.

(** The module after import. *)
Definition module_globals (lost : mojibake_chars) : globals :=
  {| WEIRDNESS_RE := _make_weirdness_regex;
     COMMON_SYMBOL_RE := make_common_symbol_re;
     MOJIBAKE_SYMBOL_RE := make_mojibake_symbol_re lost |}.

(** A call runs against the module's globals and leaves a (possibly changed)
    module behind. *)
Definition call (A : Type) : Type := globals -> A * globals.

Definition ret {A : Type} (a : A) : call A := fun g => (a, g).

Definition bind {A B : Type} (m : call A) (k : A -> call B) : call B :=
  fun g => let (a, g') := m g in k a g'.

Definition read {A : Type} (field : globals -> A) : call A :=
  fun g => (field g, g).

Definition run {A : Type} (m : call A) (g : globals) : A := fst (m g).

Notation "x <- m ;; k" := (bind m (fun x => k))
  (at level 61, m at next level, right associativity).

Section Badness.

(** [unicodedata.normalize('NFC', _)], from the Python library. *)
Variable NFC : str -> str.

(** The class letter of each character: the table [chars_to_classes]
    translates with. *)
Variable char_class : char -> char.

(** The engine's [\w]. *)
Variable isword : char -> bool.

Variable lost : mojibake_chars.

(** Modelled from the spec: [ftfy.chardata.chars_to_classes], which is
    imported by the module and is not among the source files.  The spec has
    it map each character of a string to one symbol of the category
    alphabet, giving a class string of the same length aligned one to one
    with its input. *)
Definition chars_to_classes (text : str) : str := map char_class text.

Definition sequence_weirdness_call (text : str) : call Z :=
  let text2 := NFC text in
  weirdness_re <- read WEIRDNESS_RE ;;
  let weirdness := len (findall isword weirdness_re (chars_to_classes text2)) in
  mojibake_re <- read MOJIBAKE_SYMBOL_RE ;;
  common_re <- read COMMON_SYMBOL_RE ;;
  let adjustment :=
    (len (findall isword mojibake_re text2) * 2
     - len (findall isword common_re text2))%Z in
  ret (weirdness * 2 + adjustment)%Z.

Definition text_cost_call (text : str) : call Z :=
  w <- sequence_weirdness_call text ;;
  ret (w + len text)%Z.

(** The two functions as called on the imported module. *)
Definition sequence_weirdness (text : str) : Z :=
  run (sequence_weirdness_call text) (module_globals lost).

Definition text_cost (text : str) : Z :=
  run (text_cost_call text) (module_globals lost).

(** The three counts that [sequence_weirdness] combines. *)
Definition count_weird_adjacencies (classified : str) : Z :=
  len (findall isword _make_weirdness_regex classified).

Definition count_mojibake_signatures (text : str) : Z :=
  len (findall isword (make_mojibake_symbol_re lost) text).

Definition count_common_symbols (text : str) : Z :=
  len (findall isword make_common_symbol_re text).

End Badness.


(** ** The calls with the steps of each scan counted

    The scan of [findall] is a loop; here each turn of the loop takes one
    step of a budget, and a scan that is out of steps before the end of its
    subject returns nothing.  A call returns once its three scans have. *)

Section Within.

Variable NFC : str -> str.
Variable char_class : char -> char.
Variable isword : char -> bool.
Variable lost : mojibake_chars.

Fixpoint findall_within (steps : nat) (re : pattern) (s : str)
  : option (list str) :=
  match s with
  | [] => Some []
  | c :: rest =>
      match steps with
      | O => None
      | S steps' =>
          match match_here isword re c rest with
          | Some (m, r) =>
              match findall_within steps' re r with
              | Some found => Some ((c :: m) :: found)
              | None => None
              end
          | None => findall_within steps' re rest
          end
      end
  end.

Definition sequence_weirdness_within (steps : nat) (text : str) : option Z :=
  let g := module_globals lost in
  let text2 := NFC text in
  match findall_within steps (WEIRDNESS_RE g)
          (chars_to_classes char_class text2) with
  | None => None
  | Some weird =>
      let weirdness := len weird in
      match findall_within steps (MOJIBAKE_SYMBOL_RE g) text2 with
      | None => None
      | Some mojibake =>
          match findall_within steps (COMMON_SYMBOL_RE g) text2 with
          | None => None
          | Some common =>
              let adjustment := (len mojibake * 2 - len common)%Z in
              Some (weirdness * 2 + adjustment)%Z
          end
      end
  end.


End Within.

(** ** Vocabulary of the properties *)

(** The C1 control characters, U+0080 to U+009F. *)
Definition is_c1 (c : char) : bool := N.leb 0x80 c && N.leb c 0x9f.

(** Membership in the class of [COMMON_SYMBOL_RE]. *)
Definition is_common (c : char) : bool := existsb (N.eqb c) common_symbols.

(** The class letters that are a match on their own: the four
    one-character groups of [_make_weirdness_regex]. *)
Definition weird_alone (k : char) : bool := existsb (N.eqb k) (chars "2XP_").

(** How many times [c] occurs in [s]. *)
Definition occurrences (c : char) (s : str) : Z := len (filter (N.eqb c) s).

(** The match [m] begins with the character [c]. *)
Definition starts_with (c : char) (m : str) : bool :=
  match m with
  | x :: _ => N.eqb c x
  | [] => false
  end.

(** [c] can only open a match of [re]: no atom after the first of an
    alternative accepts it. *)
Definition only_opens (isword : char -> bool) (re : pattern) (c : char)
  : bool :=
  forallb (fun b => forallb (fun a => negb (accepts isword a c)) (tl b)) re.

(** No one-character alternative of [re] accepts [c]. *)
Definition alone_rejects (isword : char -> bool) (re : pattern) (c : char)
  : bool :=
  forallb (fun b => match b with
                    | [a] => negb (accepts isword a c)
                    | _ => true
                    end) re.

(** Every alternative of [re] has a position that none of the characters
    [good] can fill. *)
Definition excludes (isword : char -> bool) (good : str) (re : pattern)
  : bool :=
  forallb
    (fun b =>
       existsb (fun a => forallb (fun c => negb (accepts isword a c)) good) b)
    re.

(** What the properties ask of the parts that are not in the module. *)

(** Normalizing twice is normalizing once. *)
Definition idempotent (NFC : str -> str) : Prop :=
  forall t, NFC (NFC t) = NFC t.

(** Nothing composes with a C1 control character: one at the end of a text
    stays there and leaves the normal form of what is before it alone. *)
Definition keeps_trailing_c1 (NFC : str -> str) : Prop :=
  forall t c, is_c1 c = true -> NFC (t ++ [c]) = NFC t ++ [c].

(** The common symbols have no canonical decomposition and do not combine:
    a text made of them is its own normal form. *)
Definition fixes_common (NFC : str -> str) : Prop :=
  forall t, forallb is_common t = true -> NFC t = t.

(** C1 control characters are in class X. *)
Definition c1_is_control (char_class : char -> char) : Prop :=
  forall c, is_c1 c = true -> char_class c = ord "X".

(** No common symbol is in a class that is a match on its own. *)
Definition common_not_weird_alone (char_class : char -> char) : bool :=
  forallb (fun c => negb (weird_alone (char_class c))) common_symbols.

(** ** The weirdness groups as a rule table *)

(** [k] is one of the class letters of [s]. *)
Definition among (s : string) (k : char) : bool := existsb (N.eqb k) (chars s).

(** The two-letter groups of [_make_weirdness_regex], read as a relation
    between a class letter and the one after it: a mark after anything but
    a non-cased letter or a mark; a Latin letter and a non-Latin letter, in
    either order; a capital and an IPA letter, in either order; two
    different categories out of M, m, N, 1, 3. *)
Definition weird_pair (x y : char) : bool :=
  (negb (among "CM" x) && N.eqb y (ord "M"))
  || (among "Ll" x && among "AaC" y)
  || (among "AaC" x && among "Ll" y)
  || (among "LA" x && N.eqb y (ord "i"))
  || (N.eqb x (ord "i") && among "LA" y)
  || (among "MmN13" x && among "MmN13" y && negb (N.eqb y x)).

(** A scan with a window of two letters: a weird pair takes both, a letter
    that is weird alone takes one, anything else is passed over. *)
Fixpoint count_by_rules (classified : str) : nat :=
  match classified with
  | [] => 0
  | x :: after =>
      match after with
      | y :: rest =>
          if weird_pair x y then S (count_by_rules rest)
          else if weird_alone x then S (count_by_rules after)
          else count_by_rules after
      | [] => if weird_alone x then 1 else 0
      end
  end.

(** No letter of the class string is weird alone and no two neighbours are
    a weird pair. *)
Fixpoint no_weirdness (classified : str) : bool :=
  match classified with
  | [] => true
  | x :: after =>
      negb (weird_alone x)
      && match after with
         | y :: _ => negb (weird_pair x y)
         | [] => true
         end
      && no_weirdness after
  end.

(** ** A small Unicode environment to run the module on

    A fragment of the Unicode data, enough to evaluate the two functions on
    concrete texts. *)

Module Sample.

#[local] Open Scope N_scope.

Definition in_range (lo hi c : char) : bool := N.leb lo c && N.leb c hi.

(** The singleton canonical mappings ANGSTROM SIGN to A WITH RING ABOVE,
    OHM SIGN to GREEK CAPITAL OMEGA, KELVIN SIGN to K. *)
Definition nfc_char (c : char) : char :=
  if N.eqb c 0x212B then 0xC5
  else if N.eqb c 0x2126 then 0x3A9
  else if N.eqb c 0x212A then 0x4B
  else c.

Definition NFC (t : str) : str := map nfc_char t.

(** Class letters for ASCII, Latin-1, the combining diacritics, basic
    Cyrillic and the private use area; [o] elsewhere. *)
Definition char_class (c : char) : char :=
  if in_range 0x41 0x5A c then ord "L"
  else if in_range 0x61 0x7A c then ord "l"
  else if N.eqb c 0x20 || N.eqb c 0xA0 then ord " "
  else if in_range 0x80 0x9F c then ord "X"
  else if N.eqb c 0xA8 then ord "2"
  else if N.eqb c 0xD7 || N.eqb c 0xF7 || N.eqb c 0xB1 then ord "1"
  else if N.eqb c 0xB0 || N.eqb c 0xAE || N.eqb c 0x2122 then ord "3"
  else if in_range 0xC0 0xDE c then ord "L"
  else if in_range 0xDF 0xFF c then ord "l"
  else if in_range 0x300 0x36F c then ord "M"
  else if in_range 0x410 0x42F c then ord "A"
  else if in_range 0x430 0x44F c then ord "a"
  else if in_range 0xE000 0xF8FF c then ord "P"
  else if N.eqb c 0x378 then ord "_"
  else ord "o".

(** Word characters: ASCII letters, digits and underscore, the Latin-1
    letters and basic Cyrillic. *)
Definition isword (c : char) : bool :=
  in_range 0x30 0x39 c || in_range 0x41 0x5A c || N.eqb c 0x5F
  || in_range 0x61 0x7A c
  || (in_range 0xC0 0xFF c && negb (N.eqb c 0xD7) && negb (N.eqb c 0xF7))
  || in_range 0x410 0x44F c.

(** Characters for the lost positions of [MOJIBAKE_SYMBOL_RE]: what UTF-8
    bytes read as Latin-1, Windows-1252, MacRoman and Windows-1251 look
    like, chosen so that each class and literal takes as many UTF-8 bytes as
    the run that stands for it in the source. *)
Definition lost : mojibake_chars :=
  {| latin_lead := [0xC2; 0xC3; 0x102];
     latin_trail :=
       [0x20AC; 0x192; 0x201A; 0x201E; 0x2020; 0x2021; 0x2C6; 0x2030;
        0x2039; 0x152; 0x201C; 0x2022; 0x2DC; 0x153; 0x178;
        0xA1; 0xA2; 0xA3; 0xA4; 0xA5; 0xA6; 0xA7; 0xA8; 0xAA; 0xAB; 0xAC;
        0xAF; 0xB0; 0xB1; 0xB2; 0xB3; 0xB5; 0xB6; 0xB7; 0xB8; 0xB9; 0xBA;
        0xBC; 0xBD; 0xBE; 0xBF; 0x2C7; 0x2D8; 0x2DD];
     cautious_lead := [0xC2; 0xC3; 0x102];
     cautious_trail := [0x203A; 0xBB; 0x2018; 0x201D; 0xA9; 0x2122];
     mac_lead := [0xAC; 0x221A];
     mac_trail :=
       [0xC4; 0xC5; 0xC7; 0xC9; 0xD1; 0xD6; 0xDC;
        0xE1; 0xE0; 0xE2; 0xE4; 0xE3; 0xE5; 0xE7;
        0xE9; 0xE8; 0xEA; 0xEB; 0xED; 0xEC; 0xEE; 0xEF;
        0xF1; 0xFA; 0xF9; 0xFB; 0xFC;
        0x2020; 0xA2; 0xA3; 0xA7; 0xB6; 0xDF; 0xAE; 0xA9; 0x2122; 0x2260;
        0xC6; 0xD8; 0xA5; 0xAA; 0xE6; 0xF8; 0x2264; 0x2265];
     sqrt_sign := 0x221A;
     sqrt_trail := [0xB1; 0x2202];
     astral_lead := [0xF0; 0x111];
     astral_trail := [0x178];
     punct1252_1 := 0xE2;
     punct1252_2 := 0x20AC;
     punct1251_1 := 0x432;
     punct1251_2 := 0x402;
     punct1251_trail := [0x459; 0x45B; 0xA6; 0xB0; 0x2116; 0x2122; 0x45C;
                         0x201C; 0x201D] |}.

(** The number of bytes of a text in UTF-8. *)
Definition utf8_bytes (c : char) : nat :=
  if N.ltb c 0x80 then 1%nat
  else if N.ltb c 0x800 then 2%nat
  else if N.ltb c 0x10000 then 3%nat
  else 4%nat.

Definition utf8_length (s : str) : nat :=
  fold_right (fun c n => (utf8_bytes c + n)%nat) 0%nat s.

Definition sequence_weirdness : str -> Z :=
  sequence_weirdness NFC char_class isword lost.

Definition text_cost : str -> Z :=
  text_cost NFC char_class isword lost.

End Sample.
(** ** Facts about the engine *)

Section EngineFacts.

Variable isword : char -> bool.

Lemma match_seq_split (p : branch) : forall s m r,
  match_seq isword p s = Some (m, r) ->
  s = m ++ r /\ length m = length p.
Proof.
  induction p as [|a p IH]; intros s m r H; simpl in H.
  - inversion H; subst; auto.
  - destruct s as [|c s']; [discriminate|].
    destruct (accepts isword a c); [|discriminate].
    destruct (match_seq isword p s') as [[m' r']|] eqn:E; [|discriminate].
    inversion H; subst.
    apply IH in E as [-> Hl]. simpl. auto.
Qed.

(** A match at a position comes from one alternative of the pattern. *)
Lemma match_here_inv (re : pattern) : forall c rest m r,
  match_here isword re c rest = Some (m, r) ->
  exists a b, In (a :: b) re /\ accepts isword a c = true
              /\ match_seq isword b rest = Some (m, r).
Proof.
  induction re as [|b0 re IH]; intros c rest m r H; simpl in H.
  - discriminate.
  - destruct (match_branch isword b0 c rest) as [mr|] eqn:E.
    + inversion H; subst mr. destruct b0 as [|a b]; simpl in E.
      * discriminate.
      * destruct (accepts isword a c) eqn:Ea; [|discriminate].
        exists a, b. simpl; auto.
    + destruct (IH _ _ _ _ H) as (a & b & Hin & Ha & Hm).
      exists a, b. simpl; auto.
Qed.

Lemma match_here_split (re : pattern) c rest m r :
  match_here isword re c rest = Some (m, r) -> rest = m ++ r.
Proof.
  intros H. destruct (match_here_inv _ _ _ _ _ H) as (a & b & _ & _ & Hm).
  apply (match_seq_split _ _ _ _ Hm).
Qed.

Lemma match_here_shorter (re : pattern) c rest m r :
  match_here isword re c rest = Some (m, r) -> length r <= length rest.
Proof.
  intros H. rewrite (match_here_split _ _ _ _ _ H), length_app. lia.
Qed.

(** The scan never needs more steps than the subject has characters. *)
Lemma findall_loop_fuel (re : pattern) : forall n fuel s,
  length s <= n -> length s <= fuel ->
  findall_loop isword fuel re s = findall_loop isword n re s.
Proof.
  induction n as [|n IH]; intros fuel s Hn Hf.
  - destruct s; [|simpl in Hn; lia]. destruct fuel; reflexivity.
  - destruct fuel as [|fuel].
    + destruct s; [reflexivity | simpl in Hf; lia].
    + destruct s as [|c rest]; [reflexivity|]. simpl in *.
      destruct (match_here isword re c rest) as [[m r]|] eqn:E.
      * apply match_here_shorter in E. f_equal. apply IH; lia.
      * apply IH; lia.
Qed.

Lemma findall_loop_enough (re : pattern) fuel s :
  length s <= fuel -> findall_loop isword fuel re s = findall isword re s.
Proof.
  intros H. unfold findall. apply findall_loop_fuel; lia.
Qed.

Lemma findall_nil (re : pattern) : findall isword re [] = [].
Proof. reflexivity. Qed.

Lemma findall_cons (re : pattern) c rest :
  findall isword re (c :: rest) =
  match match_here isword re c rest with
  | Some (m, r) => (c :: m) :: findall isword re r
  | None => findall isword re rest
  end.
Proof.
  unfold findall at 1. simpl.
  destruct (match_here isword re c rest) as [[m r]|] eqn:E.
  - apply match_here_shorter in E. f_equal. now apply findall_loop_enough.
  - now apply findall_loop_enough.
Qed.

(** Induction along the scan. *)
Lemma findall_scan_ind (re : pattern) (P : str -> Prop) :
  P [] ->
  (forall c rest m r,
      match_here isword re c rest = Some (m, r) -> P r -> P (c :: rest)) ->
  (forall c rest,
      match_here isword re c rest = None -> P rest -> P (c :: rest)) ->
  forall s, P s.
Proof.
  intros Hnil Hhit Hmiss s.
  remember (length s) as n eqn:Hn.
  assert (Hle : length s <= n) by lia. clear Hn.
  revert s Hle. induction n as [|n IH]; intros s Hle.
  - destruct s; [assumption | simpl in Hle; lia].
  - destruct s as [|c rest]; [assumption|]. simpl in Hle.
    destruct (match_here isword re c rest) as [[m r]|] eqn:E.
    + apply (Hhit _ _ _ _ E). apply IH.
      apply match_here_shorter in E. lia.
    + apply (Hmiss _ _ E). apply IH. lia.
Qed.

(** Matches are disjoint pieces of the subject: with alternatives of at least
    [k] characters, [k] times their number fits in its length. *)
Lemma findall_count_bound (re : pattern) (k : nat) :
  (forall b, In b re -> k <= length b) ->
  forall s, k * length (findall isword re s) <= length s.
Proof.
  intros Hk s. pattern s. apply (findall_scan_ind re); clear s.
  - simpl. lia.
  - intros c rest m r E IH. rewrite findall_cons, E.
    destruct (match_here_inv _ _ _ _ _ E) as (a & b & Hin & _ & Hm).
    destruct (match_seq_split _ _ _ _ Hm) as [-> Hl].
    apply Hk in Hin. simpl in *. rewrite length_app. lia.
  - intros c rest E IH. rewrite findall_cons, E. simpl. lia.
Qed.

Lemma findall_length_le (re : pattern) s :
  length (findall isword re s) <= length s.
Proof.
  pattern s. apply (findall_scan_ind re); clear s.
  - simpl. lia.
  - intros c rest m r E IH. rewrite findall_cons, E.
    apply match_here_shorter in E. simpl. lia.
  - intros c rest E IH. rewrite findall_cons, E. simpl. lia.
Qed.

End EngineFacts.

(** ** A character appended to the subject *)

Section Appending.

Variable isword : char -> bool.

(** A match inside [s] is still there when [s] is extended. *)
Lemma match_seq_app (p : branch) : forall s t m r,
  match_seq isword p s = Some (m, r) ->
  match_seq isword p (s ++ t) = Some (m, r ++ t).
Proof.
  induction p as [|a p IH]; intros s t m r H; simpl in H.
  - inversion H; subst. reflexivity.
  - destruct s as [|c s']; [discriminate|]. simpl.
    destruct (accepts isword a c); [|discriminate].
    destruct (match_seq isword p s') as [[m' r']|] eqn:E; [|discriminate].
    inversion H; subst. now rewrite (IH _ t _ _ E).
Qed.

(** A match in [s ++ [c]] either takes everything, or was there in [s]. *)
Lemma match_seq_snoc (p : branch) : forall s c m r,
  match_seq isword p (s ++ [c]) = Some (m, r) ->
  r = [] \/ exists r', r = r' ++ [c] /\ match_seq isword p s = Some (m, r').
Proof.
  induction p as [|a p IH]; intros s c m r H.
  - simpl in H. inversion H; subst. right. exists s. auto.
  - destruct s as [|x s']; simpl in H.
    + destruct (accepts isword a c); [|discriminate].
      destruct (match_seq isword p []) as [[m' r']|] eqn:E; [|discriminate].
      inversion H; subst. left.
      destruct (match_seq_split _ _ _ _ _ E) as [Hs _].
      symmetry in Hs. now apply app_eq_nil in Hs.
    + simpl. destruct (accepts isword a x); [|discriminate].
      destruct (match_seq isword p (s' ++ [c])) as [[m' r']|] eqn:E;
        [|discriminate].
      inversion H; subst.
      destruct (IH _ _ _ _ E) as [-> | (r' & -> & E')]; [now left|].
      right. exists r'. now rewrite E'.
Qed.

Lemma match_branch_app (b : branch) x rest t m r :
  match_branch isword b x rest = Some (m, r) ->
  match_branch isword b x (rest ++ t) = Some (m, r ++ t).
Proof.
  destruct b as [|a b]; simpl; [discriminate|].
  destruct (accepts isword a x); [|discriminate].
  apply match_seq_app.
Qed.

Lemma match_branch_snoc (b : branch) x rest c m r :
  match_branch isword b x (rest ++ [c]) = Some (m, r) ->
  r = [] \/ exists r', r = r' ++ [c]
                       /\ match_branch isword b x rest = Some (m, r').
Proof.
  destruct b as [|a b]; simpl; [discriminate|].
  destruct (accepts isword a x); [|discriminate].
  apply match_seq_snoc.
Qed.

Lemma match_here_snoc (re : pattern) : forall x rest c m r,
  match_here isword re x (rest ++ [c]) = Some (m, r) ->
  r = [] \/ exists r', r = r' ++ [c]
                       /\ match_here isword re x rest = Some (m, r').
Proof.
  induction re as [|b re IH]; intros x rest c m r H; simpl in H.
  - discriminate.
  - destruct (match_branch isword b x (rest ++ [c])) as [[m1 r1]|] eqn:E.
    + inversion H; subst.
      destruct (match_branch_snoc _ _ _ _ _ _ E) as [-> | (r' & -> & E')];
        [now left|].
      right. exists r'. simpl. now rewrite E'.
    + destruct (IH _ _ _ _ _ H) as [-> | (r' & -> & E')]; [now left|].
      right. exists r'. simpl.
      destruct (match_branch isword b x rest) as [[m0 r0]|] eqn:E0; auto.
      apply (match_branch_app _ _ _ [c]) in E0. congruence.
Qed.

Lemma match_here_app_some (re : pattern) : forall x rest t m r,
  match_here isword re x rest = Some (m, r) ->
  exists m2 r2, match_here isword re x (rest ++ t) = Some (m2, r2).
Proof.
  induction re as [|b re IH]; intros x rest t m r H; simpl in H.
  - discriminate.
  - simpl. destruct (match_branch isword b x (rest ++ t)) as [[m1 r1]|] eqn:E.
    + eauto.
    + destruct (match_branch isword b x rest) as [[m0 r0]|] eqn:E0.
      * apply (match_branch_app _ _ _ t) in E0. congruence.
      * eapply IH; eauto.
Qed.

(** With every alternative two to four characters long, one more character
    at the end never loses a match: the only match that can change is the
    last one, and the one that replaces it is too short to have covered two
    matches. *)
Lemma findall_snoc_mono (re : pattern) (c : char) :
  (forall b, In b re -> 2 <= length b <= 4) ->
  forall s,
    length (findall isword re s) <= length (findall isword re (s ++ [c])).
Proof.
  intros Hlen s. pattern s. apply (findall_scan_ind isword re); clear s.
  - simpl. lia.
  - intros x rest m r E IH.
    change ((x :: rest) ++ [c]) with (x :: (rest ++ [c])).
    rewrite !findall_cons, E.
    destruct (match_here_app_some _ _ _ [c] _ _ E) as (m2 & r2 & E2).
    rewrite E2.
    destruct (match_here_snoc _ _ _ _ _ _ E2) as [-> | (r' & -> & E')].
    + (* an alternative now takes everything up to the end *)
      destruct (match_here_inv _ _ _ _ _ _ E2) as (a2 & b2 & Hin2 & _ & Hm2).
      destruct (match_seq_split _ _ _ _ _ Hm2) as [Hs2 Hl2].
      destruct (match_here_inv _ _ _ _ _ _ E) as (a & b & Hin & _ & Hm).
      destruct (match_seq_split _ _ _ _ _ Hm) as [Hs Hl].
      apply Hlen in Hin2. apply Hlen in Hin. simpl in Hin2, Hin.
      assert (Hr : length r <= 1).
      { apply (f_equal (@List.length _)) in Hs2, Hs.
        rewrite !length_app in Hs2. rewrite length_app in Hs.
        simpl in Hs2. lia. }
      pose proof (findall_count_bound isword re 2
                    (fun b Hb => proj1 (Hlen b Hb)) r) as Hc.
      simpl. lia.
    + rewrite E in E'. inversion E'; subst. simpl. lia.
  - intros x rest E IH.
    change ((x :: rest) ++ [c]) with (x :: (rest ++ [c])).
    rewrite !findall_cons, E.
    destruct (match_here isword re x (rest ++ [c])) as [[m2 r2]|] eqn:E2;
      [|assumption].
    destruct (match_here_snoc _ _ _ _ _ _ E2) as [-> | (r' & -> & E')];
      [|congruence].
    destruct (match_here_inv _ _ _ _ _ _ E2) as (a2 & b2 & Hin2 & _ & Hm2).
    destruct (match_seq_split _ _ _ _ _ Hm2) as [Hs2 Hl2].
    apply Hlen in Hin2. simpl in Hin2.
    assert (Hr : length rest <= 2).
    { apply (f_equal (@List.length _)) in Hs2.
      rewrite !length_app in Hs2. simpl in Hs2. lia. }
    pose proof (findall_count_bound isword re 2
                  (fun b Hb => proj1 (Hlen b Hb)) rest) as Hc.
    simpl. lia.
Qed.

End Appending.

(** ** Characters that a pattern takes or refuses *)

Section Refusing.

Variable isword : char -> bool.

(** The characters of a match are accepted by the atoms, one by one. *)
Lemma match_seq_accepts (p : branch) : forall s m r,
  match_seq isword p s = Some (m, r) ->
  Forall2 (fun a c => accepts isword a c = true) p m.
Proof.
  induction p as [|a p IH]; intros s m r H; simpl in H.
  - inversion H; subst. constructor.
  - destruct s as [|c s']; [discriminate|].
    destruct (accepts isword a c) eqn:Ea; [|discriminate].
    destruct (match_seq isword p s') as [[m' r']|] eqn:E; [|discriminate].
    inversion H; subst. constructor; eauto.
Qed.

Lemma refused_not_matched (p : branch) (c : char) (m : str) :
  forallb (fun a => negb (accepts isword a c)) p = true ->
  Forall2 (fun a x => accepts isword a x = true) p m ->
  filter (N.eqb c) m = [].
Proof.
  intros Hp HF. induction HF as [|a x p m Hax HF IH]; [reflexivity|].
  simpl in Hp. apply andb_true_iff in Hp as [Ha Hp]. simpl.
  destruct (N.eqb_spec c x) as [->|_].
  - rewrite Hax in Ha. discriminate.
  - auto.
Qed.

Lemma only_opens_In (re : pattern) (c : char) a b :
  only_opens isword re c = true -> In (a :: b) re ->
  forallb (fun a' => negb (accepts isword a' c)) b = true.
Proof.
  unfold only_opens. rewrite forallb_forall. intros H Hin.
  apply (H _ Hin).
Qed.

(** A character that can only open a match is not inside one. *)
Lemma match_here_opens (re : pattern) (p : char) x rest m r :
  only_opens isword re p = true ->
  match_here isword re x rest = Some (m, r) ->
  filter (N.eqb p) m = [].
Proof.
  intros Ho E.
  destruct (match_here_inv _ _ _ _ _ _ E) as (a & b & Hin & _ & Hm).
  eapply refused_not_matched.
  - eapply only_opens_In; eauto.
  - eapply match_seq_accepts; eauto.
Qed.

Lemma match_seq_snoc_refused (p : branch) (c : char) :
  forallb (fun a => negb (accepts isword a c)) p = true ->
  forall s,
    match_seq isword p (s ++ [c]) =
    match match_seq isword p s with
    | Some (m, r) => Some (m, r ++ [c])
    | None => None
    end.
Proof.
  induction p as [|a p IH]; intros Hp s.
  - reflexivity.
  - simpl in Hp. apply andb_true_iff in Hp as [Ha Hp].
    apply negb_true_iff in Ha.
    destruct s as [|x s']; simpl.
    + now rewrite Ha.
    + destruct (accepts isword a x); [|reflexivity].
      rewrite (IH Hp s').
      now destruct (match_seq isword p s') as [[m r]|].
Qed.

Lemma match_here_snoc_refused (re : pattern) (c : char) :
  only_opens isword re c = true ->
  forall x rest,
    match_here isword re x (rest ++ [c]) =
    match match_here isword re x rest with
    | Some (m, r) => Some (m, r ++ [c])
    | None => None
    end.
Proof.
  induction re as [|b re IH]; intros Ho x rest.
  - reflexivity.
  - simpl in Ho. apply andb_true_iff in Ho as [Hb Ho]. simpl.
    destruct b as [|a b]; simpl.
    + now apply IH.
    + destruct (accepts isword a x).
      * simpl in Hb. rewrite (match_seq_snoc_refused _ _ Hb rest).
        destruct (match_seq isword b rest) as [[m r]|]; [reflexivity|].
        now apply IH.
      * now apply IH.
Qed.

(** Such a character at the end is scanned on its own. *)
Lemma findall_snoc_refused (re : pattern) (c : char) :
  only_opens isword re c = true ->
  forall s,
    findall isword re (s ++ [c]) = findall isword re s ++ findall isword re [c].
Proof.
  intros Ho s. pattern s. apply (findall_scan_ind isword re); clear s.
  - reflexivity.
  - intros x rest m r E IH.
    change ((x :: rest) ++ [c]) with (x :: (rest ++ [c])).
    rewrite (findall_cons isword re x (rest ++ [c])),
      (findall_cons isword re x rest),
      (match_here_snoc_refused _ _ Ho), E.
    simpl. now rewrite IH.
  - intros x rest E IH.
    change ((x :: rest) ++ [c]) with (x :: (rest ++ [c])).
    rewrite (findall_cons isword re x (rest ++ [c])),
      (findall_cons isword re x rest),
      (match_here_snoc_refused _ _ Ho), E.
    exact IH.
Qed.

(** A character that is an alternative of its own always opens a match. *)
Lemma match_here_lit (re : pattern) (p : char) : forall rest,
  In [Lit p] re -> match_here isword re p rest <> None.
Proof.
  induction re as [|b re IH]; intros rest Hin; simpl in *.
  - contradiction.
  - destruct (match_branch isword b p rest) eqn:E; [discriminate|].
    destruct Hin as [-> | Hin]; [|now apply IH].
    simpl in E. rewrite N.eqb_refl in E. discriminate.
Qed.

(** Every occurrence of such a character opens one match. *)
Lemma findall_opened_by (re : pattern) (p : char) :
  only_opens isword re p = true -> In [Lit p] re ->
  forall s,
    length (filter (starts_with p) (findall isword re s))
    = length (filter (N.eqb p) s).
Proof.
  intros Ho Hin s. pattern s. apply (findall_scan_ind isword re); clear s.
  - reflexivity.
  - intros x rest m r E IH. rewrite findall_cons, E.
    rewrite (match_here_split _ _ _ _ _ _ E).
    pose proof (match_here_opens _ _ _ _ _ _ Ho E) as Hm.
    cbn [filter starts_with]. rewrite filter_app.
    unfold str, char in *. rewrite Hm. cbn [app].
    destruct (N.eqb p x); cbn [length]; now rewrite IH.
  - intros x rest E IH. rewrite findall_cons, E. simpl.
    destruct (N.eqb_spec p x) as [<-|_]; [|exact IH].
    now apply (match_here_lit re p rest) in Hin.
Qed.

(** A text whose characters all miss some position of every alternative has
    no match. *)
Lemma findall_excluded (re : pattern) (good : str) :
  excludes isword good re = true ->
  forall s, (forall c, In c s -> In c good) -> findall isword re s = [].
Proof.
  intros Hex s. pattern s. apply (findall_scan_ind isword re); clear s.
  - reflexivity.
  - intros x rest m r E _ Hgood. exfalso.
    destruct (match_here_inv _ _ _ _ _ _ E) as (a & b & Hin & Ha & Hm).
    pose proof (match_seq_accepts _ _ _ _ Hm) as HF.
    destruct (match_seq_split _ _ _ _ _ Hm) as [Hs _].
    unfold excludes in Hex. rewrite forallb_forall in Hex.
    apply Hex in Hin. apply existsb_exists in Hin as (a0 & Ha0 & Hrej).
    rewrite forallb_forall in Hrej.
    assert (HF' : Forall2 (fun a c => accepts isword a c = true)
                    (a :: b) (x :: m)) by (constructor; assumption).
    assert (Hall : forall c, In c (x :: m) -> In c good).
    { intros c Hc. apply Hgood. destruct Hc as [->|Hc]; [now left|].
      right. rewrite Hs. apply in_or_app. now left. }
    clear - HF' Ha0 Hrej Hall.
    induction HF' as [|a1 c1 p1 m1 Hacc HF IH]; [contradiction|].
    destruct Ha0 as [->|Ha0].
    + specialize (Hrej c1 (Hall c1 (or_introl eq_refl))).
      rewrite Hacc in Hrej. discriminate.
    + apply IH; [assumption|]. intros c Hc. apply Hall. now right.
  - intros x rest E IH Hgood. rewrite findall_cons, E.
    apply IH. intros c Hc. apply Hgood. now right.
Qed.

(** Where no character of the text is a match on its own, every match takes
    two characters at least. *)
Lemma findall_pairs_bound (re : pattern) :
  forall s, (forall c, In c s -> alone_rejects isword re c = true) ->
            2 * length (findall isword re s) <= length s.
Proof.
  intros s. pattern s. apply (findall_scan_ind isword re); clear s.
  - simpl. lia.
  - intros x rest m r E IH Hs. rewrite findall_cons, E.
    destruct (match_here_inv _ _ _ _ _ _ E) as (a & b & Hin & Ha & Hm).
    destruct (match_seq_split _ _ _ _ _ Hm) as [Hrest Hl].
    assert (Hm1 : 1 <= length m).
    { destruct b as [|a' b']; [|simpl in Hl; lia].
      pose proof (Hs x (or_introl eq_refl)) as Hx.
      unfold alone_rejects in Hx. rewrite forallb_forall in Hx.
      apply Hx in Hin. rewrite Ha in Hin. discriminate. }
    assert (Hr : 2 * length (findall isword re r) <= length r).
    { apply IH. intros c Hc. apply Hs. right. rewrite Hrest.
      apply in_or_app. now right. }
    rewrite Hrest. simpl. rewrite length_app. lia.
  - intros x rest E IH Hs. rewrite findall_cons, E.
    assert (2 * length (findall isword re rest) <= length rest).
    { apply IH. intros c Hc. apply Hs. now right. }
    simpl. lia.
Qed.

(** A pattern that is one character class keeps the characters of the
    class, one match each. *)
Lemma findall_class (a : atom) : forall s,
  findall isword [[a]] s = map (fun c => [c]) (filter (accepts isword a) s).
Proof.
  induction s as [|x s IH]; [reflexivity|].
  rewrite findall_cons. simpl.
  destruct (accepts isword a x); simpl; now rewrite IH.
Qed.

End Refusing.

(** ** Facts about the module's patterns *)

Section ModuleFacts.

Variable NFC : str -> str.
Variable char_class : char -> char.
Variable isword : char -> bool.
Variable lost : mojibake_chars.

(** The body of [sequence_weirdness], with the globals of the imported
    module read. *)
Lemma sequence_weirdness_unfold (text : str) :
  sequence_weirdness NFC char_class isword lost text =
  (len (findall isword _make_weirdness_regex
          (chars_to_classes char_class (NFC text))) * 2
   + (len (findall isword (make_mojibake_symbol_re lost) (NFC text)) * 2
      - len (findall isword make_common_symbol_re (NFC text))))%Z.
Proof. reflexivity. Qed.

Lemma text_cost_unfold (text : str) :
  text_cost NFC char_class isword lost text =
  (sequence_weirdness NFC char_class isword lost text + len text)%Z.
Proof. reflexivity. Qed.

(** Every alternative of [MOJIBAKE_SYMBOL_RE] is two to four characters
    long, whatever the lost characters are. *)
Lemma mojibake_branch_lengths :
  forall b, In b (make_mojibake_symbol_re lost) -> 2 <= length b <= 4.
Proof.
  intros b Hin. simpl in Hin.
  repeat (destruct Hin as [<- | Hin]; [simpl; lia|]).
  contradiction.
Qed.

(** Class X is no second character of a weirdness group, and is a group of
    its own. *)
Lemma control_only_opens :
  only_opens isword _make_weirdness_regex (ord "X") = true.
Proof. reflexivity. Qed.

Lemma control_alone :
  findall isword _make_weirdness_regex [ord "X"] = [[ord "X"]].
Proof. reflexivity. Qed.

(** The same for class P. *)
Lemma private_only_opens :
  only_opens isword _make_weirdness_regex (ord "P") = true.
Proof. reflexivity. Qed.

Lemma private_is_group : In [Lit (ord "P")] _make_weirdness_regex.
Proof. simpl. tauto. Qed.

(** The one-character groups are 2, X, P and _. *)
Lemma alone_rejects_weirdness (k : char) :
  alone_rejects isword _make_weirdness_regex k = negb (weird_alone k).
Proof.
  unfold alone_rejects, weird_alone. simpl.
  repeat match goal with
         | |- context [N.eqb k ?d] => destruct (N.eqb k d)
         end; reflexivity.
Qed.

Lemma accepts_members (cs : str) (c : char) :
  accepts isword (Class false (members cs)) c = existsb (N.eqb c) cs.
Proof.
  simpl. unfold members. induction cs as [|d cs IH]; simpl; [reflexivity|].
  simpl in IH. now rewrite IH.
Qed.

Lemma accepts_common (c : char) :
  accepts isword (Class false (members common_symbols)) c = is_common c.
Proof. apply accepts_members. Qed.

(** [COMMON_SYMBOL_RE] counts the common symbols of the text. *)
Lemma common_count (s : str) :
  length (findall isword make_common_symbol_re s)
  = length (filter is_common s).
Proof.
  unfold make_common_symbol_re. rewrite findall_class, length_map.
  apply f_equal, filter_ext. intros c. apply accepts_common.
Qed.

Lemma c1_not_common (c : char) : is_c1 c = true -> is_common c = false.
Proof.
  unfold is_c1. rewrite andb_true_iff, !N.leb_le. intros [Hlo Hhi].
  unfold is_common, common_symbols. simpl.
  repeat (match goal with
          | |- context [N.eqb c ?k] =>
              destruct (N.eqb_spec c k) as [Heq|_];
              [exfalso; revert Heq; cbv; lia|]
          end).
  reflexivity.
Qed.

Lemma all_common_In (s : str) :
  forallb is_common s = true -> forall c, In c s -> In c common_symbols.
Proof.
  rewrite forallb_forall. intros H c Hc. apply H in Hc.
  unfold is_common in Hc. apply existsb_exists in Hc as (d & Hd & Heq).
  apply N.eqb_eq in Heq. now subst.
Qed.

Lemma filter_all (f : char -> bool) (s : str) :
  forallb f s = true -> filter f s = s.
Proof.
  induction s as [|x s IH]; simpl; [reflexivity|].
  rewrite andb_true_iff. intros [-> Hs]. now rewrite IH.
Qed.

End ModuleFacts.

(** ** The scan returns within as many steps as its subject is long *)

Section WithinFacts.

Variable isword : char -> bool.


(** A scan that returns has found what [findall] finds. *)
Lemma findall_within_sound (re : pattern) : forall steps s found,
  findall_within isword steps re s = Some found ->
  found = findall isword re s.
Proof.
  induction steps as [|steps IH]; intros s found H.
  - destruct s; [|discriminate]. now inversion H.
  - destruct s as [|c rest]; [now inversion H|].
    simpl in H. rewrite findall_cons.
    destruct (match_here isword re c rest) as [[m r]|] eqn:E.
    + destruct (findall_within isword steps re r) as [f|] eqn:Er;
        [|discriminate].
      inversion H; subst. now rewrite (IH _ _ Er).
    + now apply IH.
Qed.

(** Out of steps on a subject that has characters left, the scan does not
    return. *)
Lemma findall_within_out_of_steps (re : pattern) c rest :
  findall_within isword 0 re (c :: rest) = None.
Proof. reflexivity. Qed.

(** With no step to take, a call on a text whose normal form is not empty
    does not return. *)
Lemma no_steps_no_score (NFC : str -> str) (char_class : char -> char)
  (lost : mojibake_chars) (text : str) :
  NFC text <> [] ->
  sequence_weirdness_within NFC char_class isword lost 0 text = None.
Proof.
  intros Hne. unfold sequence_weirdness_within, chars_to_classes.
  destruct (NFC text); [contradiction | reflexivity].
Qed.

End WithinFacts.

(** ** The sample environment meets what the properties ask *)

Section SampleFacts.

#[local] Open Scope N_scope.

Lemma sample_nfc_char_fixed (c : char) :
  Sample.nfc_char (Sample.nfc_char c) = Sample.nfc_char c.
Proof.
  unfold Sample.nfc_char.
  destruct (N.eqb_spec c 0x212B); [reflexivity|].
  destruct (N.eqb_spec c 0x2126); [reflexivity|].
  destruct (N.eqb_spec c 0x212A); [reflexivity|].
  destruct (N.eqb_spec c 0x212B); [contradiction|].
  destruct (N.eqb_spec c 0x2126); [contradiction|].
  destruct (N.eqb_spec c 0x212A); [contradiction|].
  reflexivity.
Qed.

Lemma sample_nfc_idempotent : idempotent Sample.NFC.
Proof.
  intros t. unfold Sample.NFC. rewrite map_map.
  apply map_ext. exact sample_nfc_char_fixed.
Qed.

Lemma sample_nfc_char_below (c : char) :
  c < 0x2126 -> Sample.nfc_char c = c.
Proof.
  intros H. unfold Sample.nfc_char.
  destruct (N.eqb_spec c 0x212B); [lia|].
  destruct (N.eqb_spec c 0x2126); [lia|].
  destruct (N.eqb_spec c 0x212A); [lia|].
  reflexivity.
Qed.

Lemma sample_nfc_keeps_trailing_c1 : keeps_trailing_c1 Sample.NFC.
Proof.
  intros t c Hc. unfold Sample.NFC. rewrite map_app. simpl.
  unfold is_c1 in Hc. apply andb_true_iff in Hc as [_ Hhi].
  apply N.leb_le in Hhi. rewrite sample_nfc_char_below; [reflexivity | lia].
Qed.

Lemma sample_nfc_char_common (c : char) :
  is_common c = true -> Sample.nfc_char c = c.
Proof.
  unfold is_common. intros H. apply existsb_exists in H as (d & Hd & Heq).
  apply N.eqb_eq in Heq. subst d. simpl in Hd.
  repeat (destruct Hd as [<- | Hd]; [reflexivity|]).
  contradiction.
Qed.

Lemma sample_nfc_fixes_common : fixes_common Sample.NFC.
Proof.
  intros t. unfold Sample.NFC.
  induction t as [|c t IH]; simpl; [reflexivity|].
  rewrite andb_true_iff. intros [Hc Ht].
  now rewrite (sample_nfc_char_common _ Hc), IH.
Qed.

Lemma sample_c1_is_control : c1_is_control Sample.char_class.
Proof.
  intros c Hc. unfold is_c1 in Hc. apply andb_true_iff in Hc as [Hlo Hhi].
  unfold Sample.char_class, Sample.in_range. rewrite Hlo, Hhi.
  apply N.leb_le in Hlo, Hhi.
  replace (N.leb c 0x5A) with false by (symmetry; apply N.leb_gt; lia).
  replace (N.leb c 0x7A) with false by (symmetry; apply N.leb_gt; lia).
  replace (N.eqb c 0x20) with false by (symmetry; apply N.eqb_neq; lia).
  replace (N.eqb c 0xA0) with false by (symmetry; apply N.eqb_neq; lia).
  now rewrite !andb_false_r.
Qed.

End SampleFacts.

(** ** The module at work on the sample environment *)

Section Examples.

#[local] Open Scope N_scope.

(** The scan takes the first alternative that matches and resumes after it:
    [PM], [oM], [la], [X], [X], [2M], [13], and the last [M] is left. *)
Example weirdness_scan :
  findall Sample.isword _make_weirdness_regex (chars "PMoMlaXX2M13M")
  = map chars ["PM"; "oM"; "la"; "X"; "X"; "2M"; "13"]%string.
Proof. reflexivity. Qed.

(** Plain ASCII is not weird. *)
Example ascii_word : Sample.sequence_weirdness (chars "hello") = 0%Z.
Proof. reflexivity. Qed.

(** A Latin-1 letter before a C1 control: one weirdness match and one
    mojibake match. *)
Example latin1_before_control : Sample.sequence_weirdness [0xC2; 0x85] = 4%Z.
Proof. reflexivity. Qed.

(** The Windows-1252 reading of the UTF-8 bytes of a curly quote. *)
Example curly_quote_mojibake :
  Sample.text_cost [0xE2; 0x20AC; 0x153] = 5%Z.
Proof. reflexivity. Qed.

(** Common symbols lower the score. *)
Example degree_times_ellipsis :
  Sample.sequence_weirdness
    [DEGREE_SIGN; MULTIPLICATION_SIGN; HORIZONTAL_ELLIPSIS] = (-1)%Z.
Proof. reflexivity. Qed.

(** The misread text costs more than the text it stands for. *)
Example cafe_misread :
  Sample.text_cost (chars "caf" ++ [0xE9]) = 4%Z
  /\ Sample.text_cost (chars "caf" ++ [0xC3; 0xA9]) = 5%Z.
Proof. split; reflexivity. Qed.

(** The sample characters take the bytes that the runs of the source
    take. *)
Example sample_lost_byte_runs :
  map Sample.utf8_length
    [ latin_lead Sample.lost; latin_trail Sample.lost;
      cautious_lead Sample.lost; cautious_trail Sample.lost;
      mac_lead Sample.lost; mac_trail Sample.lost;
      [sqrt_sign Sample.lost]; sqrt_trail Sample.lost;
      astral_lead Sample.lost; astral_trail Sample.lost;
      [punct1252_1 Sample.lost; punct1252_2 Sample.lost];
      [punct1251_1 Sample.lost; punct1251_2 Sample.lost];
      punct1251_trail Sample.lost ]
  = [6; 97; 6; 16; 5; 95; 3; 5; 4; 2; 5; 4; 22]%nat.
Proof. reflexivity. Qed.

(** Four characters take four steps of each scan. *)
Example four_steps :
  sequence_weirdness_within Sample.NFC Sample.char_class Sample.isword
    Sample.lost 3 (chars "caf" ++ [0xE9]) = None
  /\ sequence_weirdness_within Sample.NFC Sample.char_class Sample.isword
       Sample.lost 4 (chars "caf" ++ [0xE9]) = Some 0%Z.
Proof. split; reflexivity. Qed.

End Examples.

(** ** The properties of [sequence_weirdness] and [text_cost] *)

Section Properties.

Variable NFC : str -> str.
Variable char_class : char -> char.
Variable isword : char -> bool.
Variable lost : mojibake_chars.

#[local] Open Scope Z_scope.

(** C1: the cost of a text is its weirdness plus its number of characters,
    counted on the text as given (not on its normal form), as an exact
    identity of integers. *)
Theorem text_cost_weirdness_plus_length (text : str) :
  text_cost NFC char_class isword lost text
  = sequence_weirdness NFC char_class isword lost text + len text.
Proof. reflexivity. Qed.

(** C2: the weirdness is twice the number of weirdness matches in the class
    string of the NFC-normalized text, plus the adjustment: twice the number
    of mojibake matches less the number of common symbols, both counted in
    the normalized text itself. *)
Theorem sequence_weirdness_formula (text : str) :
  let text2 := NFC text in
  let weird :=
    count_weird_adjacencies isword (chars_to_classes char_class text2) in
  let mojibake := count_mojibake_signatures isword lost text2 in
  let common := count_common_symbols isword text2 in
  sequence_weirdness NFC char_class isword lost text
  = weird * 2 + (mojibake * 2 - common).
Proof. reflexivity. Qed.

(** C3: normalizing the text beforehand does not change its weirdness,
    normalization being idempotent. *)
Theorem sequence_weirdness_of_normalized (text : str) :
  idempotent NFC ->
  sequence_weirdness NFC char_class isword lost text
  = sequence_weirdness NFC char_class isword lost (NFC text).
Proof.
  intros Hidem. rewrite !sequence_weirdness_unfold. now rewrite Hidem.
Qed.

(** C4: a C1 control character appended to a text raises the weirdness by
    two at least: it is one more weirdness match, it is no common symbol,
    and no mojibake match is lost. *)
Theorem appended_c1_control (text : str) (c : char) :
  keeps_trailing_c1 NFC ->
  c1_is_control char_class ->
  is_c1 c = true ->
  sequence_weirdness NFC char_class isword lost (text ++ [c])
  >= sequence_weirdness NFC char_class isword lost text + 2.
Proof.
  intros Hnfc Hclass Hc.
  rewrite !sequence_weirdness_unfold, (Hnfc text c Hc).
  unfold chars_to_classes. rewrite map_app. simpl map. rewrite (Hclass c Hc).
  rewrite (findall_snoc_refused isword _ _ (control_only_opens isword)),
    control_alone.
  rewrite (findall_snoc_refused isword make_common_symbol_re c eq_refl).
  assert (Hcommon : length (findall isword make_common_symbol_re [c]) = 0%nat).
  { rewrite common_count. simpl. now rewrite (c1_not_common c Hc). }
  pose proof (findall_snoc_mono isword (make_mojibake_symbol_re lost) c
                (mojibake_branch_lengths lost) (NFC text)) as Hmono.
  unfold len. rewrite !length_app, Hcommon. simpl length. lia.
Qed.

(** C5: a text made of common symbols only has weirdness zero or less: each
    character is one common symbol, a weirdness match takes two of them, and
    there is no mojibake match. *)
Theorem common_symbols_not_weird (text : str) :
  fixes_common NFC ->
  common_not_weird_alone char_class = true ->
  excludes isword common_symbols (make_mojibake_symbol_re lost) = true ->
  forallb is_common text = true ->
  sequence_weirdness NFC char_class isword lost text <= 0.
Proof.
  intros Hnfc Hclass Hmoji Hall.
  rewrite sequence_weirdness_unfold, (Hnfc text Hall).
  rewrite (findall_excluded isword _ _ Hmoji text (all_common_In text Hall)).
  unfold len. rewrite common_count, (filter_all _ _ Hall).
  assert (Hw : (2 * length (findall isword _make_weirdness_regex
                              (chars_to_classes char_class text))
                <= length (chars_to_classes char_class text))%nat).
  { apply findall_pairs_bound. intros k Hk.
    unfold chars_to_classes in Hk. apply in_map_iff in Hk as (c & <- & Hc).
    rewrite alone_rejects_weirdness.
    unfold common_not_weird_alone in Hclass.
    rewrite forallb_forall in Hclass. apply Hclass.
    now apply (all_common_In text Hall). }
  unfold chars_to_classes in Hw at 2. rewrite length_map in Hw.
  simpl length. lia.
Qed.

(** The match that a private-use character opens is that character alone
    or, before a mark, the two of them. *)
Lemma private_match_shape (x : char) (rest m r : str) :
  match_here isword _make_weirdness_regex x rest = Some (m, r) ->
  x = ord "P" -> m = [] \/ m = [ord "M"].
Proof.
  intros E ->.
  destruct (match_here_inv _ _ _ _ _ _ E) as (a & b & Hin & Ha & Hm).
  simpl in Hin.
  repeat (destruct Hin as [Hin | Hin];
          [ inversion Hin; subst a b; clear Hin;
            try (vm_compute in Ha; discriminate Ha) | ]);
    try contradiction.
  - right. destruct rest as [|y rest']; simpl in Hm; [discriminate|].
    destruct (N.eqb_spec y 77%N) as [->|_]; [|discriminate].
    now inversion Hm.
  - left. simpl in Hm. now inversion Hm.
Qed.

(** C6: in any class string, every private-use character opens one match of
    the weirdness pattern of its own: the matches that begin with P are as
    many as the P in the string, each is P alone or P with the mark after
    it, and so the count of matches is at least the number of P. *)
Theorem private_use_counted (classified : str) :
  let matches := findall isword _make_weirdness_regex classified in
  len (filter (starts_with (ord "P")) matches)
  = occurrences (ord "P") classified
  /\ Forall (fun m => starts_with (ord "P") m = true ->
                      m = [ord "P"] \/ m = [ord "P"; ord "M"]) matches
  /\ count_weird_adjacencies isword classified
     >= occurrences (ord "P") classified.
Proof.
  cbv zeta. split; [|split].
  - unfold occurrences, len. f_equal.
    apply findall_opened_by;
      [apply private_only_opens | apply private_is_group].
  - pattern classified. apply (findall_scan_ind isword _make_weirdness_regex).
    + constructor.
    + intros x rest m r E IH. rewrite findall_cons, E.
      constructor; [|exact IH].
      cbn [starts_with]. intros Hx. apply N.eqb_eq in Hx. subst x.
      destruct (private_match_shape _ _ _ _ E eq_refl) as [-> | ->]; auto.
    + intros x rest E IH. now rewrite findall_cons, E.
  - unfold count_weird_adjacencies, occurrences, len.
    rewrite <- (findall_opened_by isword _make_weirdness_regex (ord "P")
                  (private_only_opens isword) private_is_group classified).
    pose proof (filter_length_le (starts_with (ord "P"))
                  (findall isword _make_weirdness_regex classified)).
    lia.
Qed.

(** C7: the empty text has weirdness 0 and cost 0. *)
Theorem empty_text_scores_zero :
  NFC [] = [] ->
  sequence_weirdness NFC char_class isword lost [] = 0
  /\ text_cost NFC char_class isword lost [] = 0.
Proof.
  intros Hnil. rewrite text_cost_unfold, sequence_weirdness_unfold, Hnil.
  split; reflexivity.
Qed.


(** C10: the weirdness is never below minus the number of characters of the
    normalized text: each common symbol that subtracts one is one character
    of it, and the two other counts only add. *)
Theorem sequence_weirdness_lower_bound (text : str) :
  sequence_weirdness NFC char_class isword lost text >= - len (NFC text).
Proof.
  rewrite sequence_weirdness_unfold. unfold len.
  pose proof (findall_length_le isword make_common_symbol_re (NFC text)).
  lia.
Qed.

End Properties.

(** ** The pattern and the rule table agree *)

Section RuleTable.

Variable isword : char -> bool.

(** Case analysis on a class letter: one of the letters the goal compares it
    with, or none of them. *)
Ltac split_letter x :=
  repeat match goal with
         | |- context [N.eqb x ?c] =>
             destruct (N.eqb_spec x c) as [?|?]; [subst x; cbn|]
         end.

(** What the alternation does at one position. *)
Lemma match_here_weirdness (x : char) (rest : str) :
  match_here isword _make_weirdness_regex x rest =
  match rest with
  | y :: r =>
      if weird_pair x y then Some ([y], r)
      else if weird_alone x then Some ([], rest)
      else None
  | [] => if weird_alone x then Some ([], []) else None
  end.
Proof.
  unfold weird_pair, weird_alone, among.
  destruct rest as [|y r]; cbn.
  - split_letter x; reflexivity.
  - split_letter x; split_letter y; reflexivity.
Qed.

End RuleTable.

(** ** More on the scan *)

Section ScanMore.

Variable isword : char -> bool.

(** With alternatives of [k] to [2 * k] characters, one more character at
    the end never loses a match. *)
Lemma findall_snoc_mono_within (re : pattern) (k : nat) (c : char) :
  1 <= k ->
  (forall b, In b re -> k <= length b <= 2 * k) ->
  forall s,
    length (findall isword re s) <= length (findall isword re (s ++ [c])).
Proof.
  intros Hk Hlen s. pattern s. apply (findall_scan_ind isword re); clear s.
  - simpl. lia.
  - intros x rest m r E IH.
    change ((x :: rest) ++ [c]) with (x :: (rest ++ [c])).
    rewrite !findall_cons, E.
    destruct (match_here_app_some _ _ _ _ [c] _ _ E) as (m2 & r2 & E2).
    rewrite E2.
    destruct (match_here_snoc _ _ _ _ _ _ _ E2) as [-> | (r' & -> & E')].
    + destruct (match_here_inv _ _ _ _ _ _ E2) as (a2 & b2 & Hin2 & _ & Hm2).
      destruct (match_seq_split _ _ _ _ _ Hm2) as [Hs2 Hl2].
      destruct (match_here_inv _ _ _ _ _ _ E) as (a & b & Hin & _ & Hm).
      destruct (match_seq_split _ _ _ _ _ Hm) as [Hs Hl].
      apply Hlen in Hin2. apply Hlen in Hin. simpl in Hin2, Hin.
      assert (Hr : length r < k).
      { apply (f_equal (@List.length _)) in Hs2, Hs.
        rewrite !length_app in Hs2. rewrite length_app in Hs.
        simpl in Hs2. lia. }
      pose proof (findall_count_bound isword re k
                    (fun b Hb => proj1 (Hlen b Hb)) r) as Hc.
      assert (length (findall isword re r) = 0) by nia.
      simpl. lia.
    + rewrite E in E'. inversion E'; subst. simpl. lia.
  - intros x rest E IH.
    change ((x :: rest) ++ [c]) with (x :: (rest ++ [c])).
    rewrite !findall_cons, E.
    destruct (match_here isword re x (rest ++ [c])) as [[m2 r2]|] eqn:E2;
      [|assumption].
    destruct (match_here_snoc _ _ _ _ _ _ _ E2) as [-> | (r' & -> & E')];
      [|congruence].
    destruct (match_here_inv _ _ _ _ _ _ E2) as (a2 & b2 & Hin2 & _ & Hm2).
    destruct (match_seq_split _ _ _ _ _ Hm2) as [Hs2 Hl2].
    apply Hlen in Hin2. simpl in Hin2.
    assert (Hr : length rest + 2 <= 2 * k).
    { apply (f_equal (@List.length _)) in Hs2.
      rewrite !length_app in Hs2. simpl in Hs2. lia. }
    pose proof (findall_count_bound isword re k
                  (fun b Hb => proj1 (Hlen b Hb)) rest) as Hc.
    assert (length (findall isword re rest) <= 1) by nia.
    simpl. lia.
Qed.

(** An alternative that matches makes the alternation match. *)
Lemma match_here_branch (re : pattern) (b : branch) x rest :
  In b re -> match_branch isword b x rest <> None ->
  match_here isword re x rest <> None.
Proof.
  induction re as [|b0 re IH]; intros Hin Hb; simpl in *; [contradiction|].
  destruct (match_branch isword b0 x rest) eqn:E; [discriminate|].
  destruct Hin as [-> | Hin]; [contradiction | auto].
Qed.

(** A place where the alternation matches is never passed without a match
    being counted, there or before. *)
Lemma findall_found (re : pattern) x rest :
  match_here isword re x rest <> None ->
  forall pre, 1 <= length (findall isword re (pre ++ x :: rest)).
Proof.
  intros Hx pre. remember (length pre) as n eqn:Hn.
  assert (Hle : length pre <= n) by lia. clear Hn.
  revert pre Hle. induction n as [|n IH]; intros pre Hle.
  - destruct pre; [|simpl in Hle; lia]. simpl app. rewrite findall_cons.
    destruct (match_here isword re x rest) as [[m r]|]; [|contradiction].
    simpl. lia.
  - destruct pre as [|p pre]; [apply (IH []); simpl; lia|].
    simpl app. rewrite findall_cons. simpl in Hle.
    destruct (match_here isword re p (pre ++ x :: rest)) as [[m r]|] eqn:E.
    + simpl. lia.
    + apply IH. lia.
Qed.

Lemma weirdness_branch_lengths :
  forall b, In b _make_weirdness_regex -> 1 <= length b <= 2 * 1.
Proof.
  intros b Hin. simpl in Hin.
  repeat (destruct Hin as [<- | Hin]; [simpl; lia|]).
  contradiction.
Qed.

(** A letter that is weird alone is no second letter of a group, and is a
    group of its own. *)
Lemma weird_alone_only_opens (k : char) :
  weird_alone k = true -> only_opens isword _make_weirdness_regex k = true.
Proof.
  unfold weird_alone. simpl. rewrite !orb_true_iff.
  intros [H | [H | [H | [H | H]]]]; try discriminate;
    apply N.eqb_eq in H; subst k; reflexivity.
Qed.

Lemma weird_alone_found (k : char) (rest : str) :
  weird_alone k = true ->
  match_here isword _make_weirdness_regex k rest <> None.
Proof.
  intros Hk. rewrite match_here_weirdness, Hk.
  destruct rest as [|y r]; [discriminate|].
  destruct (weird_pair k y); discriminate.
Qed.

Lemma existsb_In (cs : str) (c : char) :
  In c cs -> existsb (N.eqb c) cs = true.
Proof.
  intros H. apply existsb_exists. exists c. split; [assumption|].
  apply N.eqb_refl.
Qed.

End ScanMore.

(** ** Further properties of the module *)

Section RuleProperties.

Variable isword : char -> bool.

#[local] Open Scope Z_scope.

Lemma weirdness_by_rules_count (classified : str) :
  length (findall isword _make_weirdness_regex classified)
  = count_by_rules classified.
Proof.
  pattern classified.
  apply (findall_scan_ind isword _make_weirdness_regex); clear classified.
  - reflexivity.
  - intros x rest m r E IH. rewrite findall_cons, E.
    rewrite match_here_weirdness in E. simpl length.
    destruct rest as [|y rest']; simpl count_by_rules.
    + destruct (weird_alone x); [|discriminate].
      inversion E; subst. reflexivity.
    + destruct (weird_pair x y).
      * inversion E; subst. now rewrite IH.
      * destruct (weird_alone x); [|discriminate].
        inversion E; subst. now rewrite IH.
  - intros x rest E IH. rewrite findall_cons, E.
    rewrite match_here_weirdness in E.
    destruct rest as [|y rest']; simpl count_by_rules.
    + destruct (weird_alone x); [discriminate | reflexivity].
    + destruct (weird_pair x y); [discriminate|].
      destruct (weird_alone x); [discriminate | exact IH].
Qed.

Lemma count_by_rules_zero (s : str) :
  count_by_rules s = 0%nat <-> no_weirdness s = true.
Proof.
  induction s as [|x after IH]; [simpl; tauto|].
  destruct after as [|y rest].
  - simpl. destruct (weird_alone x); simpl; split;
      intros; try discriminate; reflexivity.
  - change (count_by_rules (x :: y :: rest))
      with (if weird_pair x y then S (count_by_rules rest)
            else if weird_alone x then S (count_by_rules (y :: rest))
                 else count_by_rules (y :: rest)).
    change (no_weirdness (x :: y :: rest))
      with (negb (weird_alone x) && negb (weird_pair x y)
            && no_weirdness (y :: rest))%bool.
    destruct (weird_pair x y), (weird_alone x); simpl;
      try (split; intros; discriminate).
    exact IH.
Qed.

(** X1: the compiled weirdness pattern counts what a left-to-right scan with
    the rule table counts: at each position a weird pair takes two letters,
    else a letter that is weird alone takes one, else the scan moves on.
    The count does not depend on the engine's word characters. *)
Theorem weirdness_by_rules (classified : str) :
  count_weird_adjacencies isword classified
  = Z.of_nat (count_by_rules classified).
Proof.
  unfold count_weird_adjacencies, len.
  now rewrite weirdness_by_rules_count.
Qed.

(** X2: a class string has no weirdness match exactly when none of its
    letters is 2, X, P or _ and no letter and the next form a weird pair. *)
Theorem no_match_iff_no_weirdness (classified : str) :
  count_weird_adjacencies isword classified = 0
  <-> no_weirdness classified = true.
Proof.
  rewrite <- count_by_rules_zero.
  unfold count_weird_adjacencies, len.
  rewrite weirdness_by_rules_count. lia.
Qed.

End RuleProperties.

Section TextProperties.

Variable NFC : str -> str.
Variable char_class : char -> char.
Variable isword : char -> bool.
Variable lost : mojibake_chars.

#[local] Open Scope Z_scope.

(** X3: a class string in one script only, Latin letters or non-Latin
    letters, with spaces and other characters, has no weirdness match. *)
Theorem single_script_not_weird (classified : str) :
  forallb (among "Ll o") classified = true
  \/ forallb (among "AaC o") classified = true ->
  count_weird_adjacencies isword classified = 0.
Proof.
  unfold count_weird_adjacencies, len.
  assert (Hin : forall letters s,
             forallb (among letters) s = true ->
             forall k, In k s -> In k (chars letters)).
  { intros letters s H k Hk. rewrite forallb_forall in H. apply H in Hk.
    unfold among in Hk. apply existsb_exists in Hk as (d & Hd & Heq).
    apply N.eqb_eq in Heq. now subst. }
  intros [H | H].
  - rewrite (findall_excluded isword _make_weirdness_regex (chars "Ll o")
               eq_refl classified (Hin _ _ H)). reflexivity.
  - rewrite (findall_excluded isword _make_weirdness_regex (chars "AaC o")
               eq_refl classified (Hin _ _ H)). reflexivity.
Qed.

(** What one more character at the end does to the three counts. *)
Lemma counts_snoc (text2 : str) (c : char) :
  (length (findall isword _make_weirdness_regex
             (chars_to_classes char_class text2))
   <= length (findall isword _make_weirdness_regex
                (chars_to_classes char_class (text2 ++ [c]))))%nat
  /\ (length (findall isword (make_mojibake_symbol_re lost) text2)
      <= length (findall isword (make_mojibake_symbol_re lost)
                   (text2 ++ [c])))%nat
  /\ length (findall isword make_common_symbol_re (text2 ++ [c]))
     = (length (findall isword make_common_symbol_re text2)
        + (if is_common c then 1 else 0))%nat.
Proof.
  split; [|split].
  - unfold chars_to_classes. rewrite map_app.
    apply (findall_snoc_mono_within isword _make_weirdness_regex 1);
      [lia | apply weirdness_branch_lengths].
  - apply findall_snoc_mono, mojibake_branch_lengths.
  - rewrite !common_count, filter_app, length_app. simpl.
    now destruct (is_common c).
Qed.

(** X4: a character appended to a text lowers the weirdness by one at most,
    and only a common symbol lowers it, where the normal form of the longer
    text is that of the text with the character after it. *)
Theorem appended_character (text : str) (c : char) :
  NFC (text ++ [c]) = NFC text ++ [c] ->
  sequence_weirdness NFC char_class isword lost (text ++ [c])
  >= sequence_weirdness NFC char_class isword lost text
     - (if is_common c then 1 else 0).
Proof.
  intros Hnfc. rewrite !sequence_weirdness_unfold, Hnfc.
  destruct (counts_snoc (NFC text) c) as (Hw & Hm & Hc).
  unfold len. rewrite Hc. destruct (is_common c); lia.
Qed.

(** X5: a character that is weird on its own (class 2, X, P or _) and no
    common symbol, appended to a text, raises the weirdness by two at
    least. *)
Theorem appended_weird_alone (text : str) (c : char) :
  NFC (text ++ [c]) = NFC text ++ [c] ->
  weird_alone (char_class c) = true ->
  is_common c = false ->
  sequence_weirdness NFC char_class isword lost (text ++ [c])
  >= sequence_weirdness NFC char_class isword lost text + 2.
Proof.
  intros Hnfc Hweird Hcommon. rewrite !sequence_weirdness_unfold, Hnfc.
  destruct (counts_snoc (NFC text) c) as (_ & Hm & Hc).
  rewrite Hcommon in Hc.
  unfold chars_to_classes. rewrite map_app. simpl map.
  rewrite (findall_snoc_refused isword _ _
             (weird_alone_only_opens isword _ Hweird)).
  assert (Hone : (1 <= length (findall isword _make_weirdness_regex
                                 [char_class c]))%nat).
  { apply (findall_found isword _make_weirdness_regex (char_class c) []
             (weird_alone_found isword _ [] Hweird) []). }
  unfold len. rewrite length_app, Hc. lia.
Qed.

(** X6: the cost never goes down when a character is appended, and goes up
    unless the character is a common symbol, where the normal form of the
    longer text is that of the text with the character after it. *)
Theorem text_cost_appended (text : str) (c : char) :
  NFC (text ++ [c]) = NFC text ++ [c] ->
  text_cost NFC char_class isword lost (text ++ [c])
  >= text_cost NFC char_class isword lost text
     + (if is_common c then 0 else 1).
Proof.
  intros Hnfc. rewrite !text_cost_unfold, !sequence_weirdness_unfold, Hnfc.
  destruct (counts_snoc (NFC text) c) as (Hw & Hm & Hc).
  unfold len. rewrite Hc, length_app. simpl length.
  destruct (is_common c); lia.
Qed.

(** X7: only common symbols make the weirdness negative: it is at least
    minus the number of common symbols in the normalized text, and the two
    add up to an even number. *)
Theorem weirdness_and_common_symbols (text : str) :
  let common := len (filter is_common (NFC text)) in
  sequence_weirdness NFC char_class isword lost text >= - common
  /\ Z.even (sequence_weirdness NFC char_class isword lost text + common)
     = true.
Proof.
  cbv zeta. rewrite sequence_weirdness_unfold. unfold len.
  rewrite common_count. split; [lia|].
  match goal with
  | |- Z.even ?e = true =>
      replace e with
        (2 * (Z.of_nat (length (findall isword _make_weirdness_regex
                                  (chars_to_classes char_class (NFC text))))
              + Z.of_nat (length (findall isword
                                    (make_mojibake_symbol_re lost)
                                    (NFC text))))) by lia
  end.
  apply Z.even_mul.
Qed.

(** X8: two texts with the same normal form have the same weirdness, and
    their costs differ by what their lengths differ. *)
Theorem same_normal_form (t1 t2 : str) :
  NFC t1 = NFC t2 ->
  sequence_weirdness NFC char_class isword lost t1
  = sequence_weirdness NFC char_class isword lost t2
  /\ text_cost NFC char_class isword lost t1
     - text_cost NFC char_class isword lost t2
     = len t1 - len t2.
Proof.
  intros H. rewrite !text_cost_unfold, !sequence_weirdness_unfold, H.
  split; [reflexivity | lia].
Qed.

(** X9: a text whose normal form has one of the lead characters of the first
    mojibake alternative right before a C1 control character scores four at
    least, less its common symbols: the pair is a mojibake match or stands
    in one, and the control character is a weirdness match or stands in
    one. *)
Theorem lead_before_c1_control (text pre post : str) (x c : char) :
  NFC text = pre ++ [x; c] ++ post ->
  In x (latin_lead lost) ->
  is_c1 c = true ->
  c1_is_control char_class ->
  sequence_weirdness NFC char_class isword lost text
  >= 4 - len (filter is_common (NFC text)).
Proof.
  intros Hnfc Hx Hc Hclass.
  rewrite sequence_weirdness_unfold. unfold len. rewrite common_count, Hnfc.
  assert (Hw : (1 <= length (findall isword _make_weirdness_regex
                               (chars_to_classes char_class
                                  (pre ++ [x; c] ++ post))))%nat).
  { unfold chars_to_classes. rewrite map_app. simpl map.
    rewrite (Hclass c Hc).
    change (map char_class pre
              ++ char_class x :: ord "X" :: map char_class post)
      with (map char_class pre
              ++ [char_class x] ++ ord "X" :: map char_class post).
    rewrite app_assoc. apply findall_found.
    apply weird_alone_found. reflexivity. }
  assert (Hm : (1 <= length (findall isword (make_mojibake_symbol_re lost)
                               (pre ++ [x; c] ++ post)))%nat).
  { simpl app. apply findall_found.
    apply (match_here_branch isword _
             [ Class false (members (latin_lead lost));
               Class false (Range 0x80 0x9f :: members (latin_trail lost)) ]).
    - simpl. now left.
    - unfold match_branch. rewrite accepts_members, (existsb_In _ _ Hx).
      simpl. unfold is_c1 in Hc. rewrite Hc. simpl. discriminate. }
  lia.
Qed.

(** X10: the cost of a text that normalization does not lengthen is never
    negative: each common symbol that subtracts one is a character that
    adds one. *)
Theorem text_cost_nonnegative (text : str) :
  (length (NFC text) <= length text)%nat ->
  text_cost NFC char_class isword lost text >= 0.
Proof.
  intros Hlen. rewrite text_cost_unfold, sequence_weirdness_unfold.
  unfold len.
  pose proof (findall_length_le isword make_common_symbol_re (NFC text)).
  lia.
Qed.

End TextProperties.

(** ** The properties on the sample environment *)

Section OnSample.

#[local] Open Scope N_scope.

Lemma sequence_weirdness_of_normalized_sample :
  idempotent Sample.NFC
  /\ Sample.sequence_weirdness [0x41; 0x212B; 0x85]
     = Sample.sequence_weirdness (Sample.NFC [0x41; 0x212B; 0x85]).
Proof.
  split; [exact sample_nfc_idempotent|].
  exact (sequence_weirdness_of_normalized
           Sample.NFC Sample.char_class Sample.isword Sample.lost
           [0x41; 0x212B; 0x85] sample_nfc_idempotent).
Defined.

Lemma appended_c1_control_sample :
  keeps_trailing_c1 Sample.NFC
  /\ c1_is_control Sample.char_class
  /\ is_c1 0x85 = true
  /\ (Sample.sequence_weirdness ([0xC2%N] ++ [0x85%N])
      >= Sample.sequence_weirdness [0xC2%N] + 2)%Z.
Proof.
  split; [exact sample_nfc_keeps_trailing_c1|].
  split; [exact sample_c1_is_control|].
  split; [reflexivity|].
  exact (appended_c1_control
           Sample.NFC Sample.char_class Sample.isword Sample.lost
           [0xC2] 0x85
           sample_nfc_keeps_trailing_c1 sample_c1_is_control eq_refl).
Defined.

Lemma common_symbols_not_weird_sample :
  fixes_common Sample.NFC
  /\ common_not_weird_alone Sample.char_class = true
  /\ excludes Sample.isword common_symbols
       (make_mojibake_symbol_re Sample.lost) = true
  /\ forallb is_common
       [DEGREE_SIGN; MULTIPLICATION_SIGN; HORIZONTAL_ELLIPSIS] = true
  /\ (Sample.sequence_weirdness
        [DEGREE_SIGN; MULTIPLICATION_SIGN; HORIZONTAL_ELLIPSIS] <= 0)%Z.
Proof.
  split; [exact sample_nfc_fixes_common|].
  split; [reflexivity|].
  split; [reflexivity|].
  split; [reflexivity|].
  exact (common_symbols_not_weird
           Sample.NFC Sample.char_class Sample.isword Sample.lost
           [DEGREE_SIGN; MULTIPLICATION_SIGN; HORIZONTAL_ELLIPSIS]
           sample_nfc_fixes_common eq_refl eq_refl eq_refl).
Defined.

Lemma empty_text_scores_zero_sample :
  Sample.NFC [] = []
  /\ Sample.sequence_weirdness [] = 0%Z
  /\ Sample.text_cost [] = 0%Z.
Proof.
  split; [reflexivity|].
  exact (empty_text_scores_zero
           Sample.NFC Sample.char_class Sample.isword Sample.lost eq_refl).
Defined.

End OnSample.

(** ** The further properties on the sample environment *)

Section MoreOnSample.

#[local] Open Scope N_scope.

Lemma single_script_not_weird_sample :
  (forallb (among "Ll o")
     (chars_to_classes Sample.char_class (chars "Le mot juste")) = true
   \/ forallb (among "AaC o")
        (chars_to_classes Sample.char_class (chars "Le mot juste")) = true)
  /\ count_weird_adjacencies Sample.isword
       (chars_to_classes Sample.char_class (chars "Le mot juste")) = 0%Z.
Proof.
  split; [left; reflexivity|].
  exact (single_script_not_weird Sample.isword
           (chars_to_classes Sample.char_class (chars "Le mot juste"))
           (or_introl eq_refl)).
Defined.

Lemma appended_character_sample :
  Sample.NFC ([0x41] ++ [DEGREE_SIGN]) = Sample.NFC [0x41] ++ [DEGREE_SIGN]
  /\ (Sample.sequence_weirdness ([0x41%N] ++ [DEGREE_SIGN])
      >= Sample.sequence_weirdness [0x41%N]
         - (if is_common DEGREE_SIGN then 1 else 0))%Z.
Proof.
  split; [reflexivity|].
  exact (appended_character
           Sample.NFC Sample.char_class Sample.isword Sample.lost
           [0x41] DEGREE_SIGN eq_refl).
Defined.

Lemma appended_weird_alone_sample :
  Sample.NFC ([0x41] ++ [0xE000]) = Sample.NFC [0x41] ++ [0xE000]
  /\ weird_alone (Sample.char_class 0xE000) = true
  /\ is_common 0xE000 = false
  /\ (Sample.sequence_weirdness ([0x41%N] ++ [0xE000%N])
      >= Sample.sequence_weirdness [0x41%N] + 2)%Z.
Proof.
  split; [reflexivity|]. split; [reflexivity|]. split; [reflexivity|].
  exact (appended_weird_alone
           Sample.NFC Sample.char_class Sample.isword Sample.lost
           [0x41] 0xE000 eq_refl eq_refl eq_refl).
Defined.

Lemma text_cost_appended_sample :
  Sample.NFC ([0x41; DEGREE_SIGN] ++ [0x42])
  = Sample.NFC [0x41; DEGREE_SIGN] ++ [0x42]
  /\ (Sample.text_cost ([0x41%N; DEGREE_SIGN] ++ [0x42%N])
      >= Sample.text_cost [0x41%N; DEGREE_SIGN]
         + (if is_common 0x42%N then 0 else 1))%Z.
Proof.
  split; [reflexivity|].
  exact (text_cost_appended
           Sample.NFC Sample.char_class Sample.isword Sample.lost
           [0x41; DEGREE_SIGN] 0x42 eq_refl).
Defined.

Lemma same_normal_form_sample :
  Sample.NFC [0x212B] = Sample.NFC [0xC5]
  /\ Sample.sequence_weirdness [0x212B] = Sample.sequence_weirdness [0xC5]
  /\ (Sample.text_cost [0x212B%N] - Sample.text_cost [0xC5%N]
      = len [0x212B%N] - len [0xC5%N])%Z.
Proof.
  split; [reflexivity|].
  exact (same_normal_form
           Sample.NFC Sample.char_class Sample.isword Sample.lost
           [0x212B] [0xC5] eq_refl).
Defined.

Lemma lead_before_c1_control_sample :
  Sample.NFC [0x41; 0xC2; 0x85; 0x42] = [0x41] ++ [0xC2; 0x85] ++ [0x42]
  /\ In 0xC2 (latin_lead Sample.lost)
  /\ is_c1 0x85 = true
  /\ c1_is_control Sample.char_class
  /\ (Sample.sequence_weirdness [0x41%N; 0xC2%N; 0x85%N; 0x42%N]
      >= 4 - len (filter is_common
                    (Sample.NFC [0x41%N; 0xC2%N; 0x85%N; 0x42%N])))%Z.
Proof.
  split; [reflexivity|]. split; [left; reflexivity|].
  split; [reflexivity|]. split; [exact sample_c1_is_control|].
  exact (lead_before_c1_control
           Sample.NFC Sample.char_class Sample.isword Sample.lost
           [0x41; 0xC2; 0x85; 0x42] [0x41] [0x42] 0xC2 0x85
           eq_refl (or_introl eq_refl) eq_refl sample_c1_is_control).
Defined.

Lemma text_cost_nonnegative_sample :
  (length (Sample.NFC [DEGREE_SIGN; 0x212B%N; HORIZONTAL_ELLIPSIS])
   <= length [DEGREE_SIGN; 0x212B%N; HORIZONTAL_ELLIPSIS])%nat
  /\ (Sample.text_cost [DEGREE_SIGN; 0x212B%N; HORIZONTAL_ELLIPSIS] >= 0)%Z.
Proof.
  split; [exact (le_n 3)|].
  exact (text_cost_nonnegative
           Sample.NFC Sample.char_class Sample.isword Sample.lost
           [DEGREE_SIGN; 0x212B; HORIZONTAL_ELLIPSIS] (le_n 3)).
Defined.

End MoreOnSample.
